(** * GaAs solar cell: the single-diode Newton-Raphson solver of
    [solarcell.py], embedded in Rocq.

    The arithmetic of the script is binary64: [V] is a numpy [float64]
    taken from [V_range], and every subexpression that involves [V] or the
    result of [np.exp] follows numpy's IEEE semantics (no exception,
    overflow to [inf], [nan] propagation).  The two divisions
    [J0*Rs/(n*Vt)] and [Rs/Rsh] of the derivative only involve the keyword
    parameters, which are Python numbers: Python float division raises
    [ZeroDivisionError] on a zero divisor, and these two are modelled so.

    The operations are taken from a small class [PyNum], instantiated with
    the kernel's primitive binary64 floats ([float]); statements about the
    loop alone are proved for every instance.  The [RuntimeWarning]s numpy
    issues on an overflowing [np.exp] are modelled at the end, with the
    state Python's [warnings] machinery keeps for them. *)

From Stdlib Require Import String.
From Stdlib Require Import Floats ZArith List Lia Bool.
Import ListNotations.
Set Warnings "-inexact-float".

(** ** Numbers *)

Class PyNum (F : Type) := {
  n_add : F -> F -> F;
  n_sub : F -> F -> F;
  n_mul : F -> F -> F;
  n_div : F -> F -> F;      (* numpy division: total *)
  n_abs : F -> F;
  n_ltb : F -> F -> bool;   (* [<], false as soon as one side is nan *)
  n_eqb : F -> F -> bool;   (* [==] *)
  n_zero : F;
  n_one : F;
  n_tol : F                 (* the literal [1e-10] *)
}.

Declare Scope py_scope.
Delimit Scope py_scope with py.
Infix "+" := n_add : py_scope.
Infix "-" := n_sub : py_scope.
Infix "*" := n_mul : py_scope.
Infix "/" := n_div : py_scope.
Infix "<?" := n_ltb (at level 70) : py_scope.
Infix "=?" := n_eqb (at level 70) : py_scope.

#[export] Instance float64_num : PyNum float := {
  n_add := PrimFloat.add;
  n_sub := PrimFloat.sub;
  n_mul := PrimFloat.mul;
  n_div := PrimFloat.div;
  n_abs := PrimFloat.abs;
  n_ltb := PrimFloat.ltb;
  n_eqb := PrimFloat.eqb;
  n_zero := 0%float;
  n_one := 1%float;
  n_tol := 1e-10%float
}.

(** ** Python exceptions: a small error monad *)

Inductive exn := ZeroDivisionError | UnboundLocalError.

Inductive result (A : Type) :=
| Ok : A -> result A
| Raise : exn -> result A.
Arguments Ok {A} _.
Arguments Raise {A} _.

Definition bind {A B} (m : result A) (k : A -> result B) : result B :=
  match m with Ok a => k a | Raise e => Raise e end.

Notation "'let!' x ':=' m 'in' k" := (bind m (fun x => k))
  (at level 200, x name, m at level 100, k at level 200).

(** ** The solver, [solar_cell_current] (lines 20-40) *)

Section Solver.
Context {F : Type} `{PyNum F}.
Local Open Scope py_scope.

(** [np.exp] *)
Variable np_exp : F -> F.
(** the module-level [Vt], read when the function runs *)
Variable Vt : F.
(** the argument [V] and the keyword parameters *)
Variables (V Jsc J0 n Rs Rsh : F).

(** Python's [x / y] on Python floats *)
Definition py_div (x y : F) : result F :=
  if y =? n_zero then Raise ZeroDivisionError else Ok (x / y).

(** line 30: [f = J_guess - Jsc + J0*(np.exp((V + J_guess*Rs)/(n*Vt)) - 1)
    + (V + J_guess*Rs)/Rsh] *)
Definition f_of (J_guess : F) : F :=
  J_guess - Jsc + J0 * (np_exp ((V + J_guess * Rs) / (n * Vt)) - n_one)
  + (V + J_guess * Rs) / Rsh.

(** line 32: [df = 1 + (J0*Rs/(n*Vt))*np.exp((V + J_guess*Rs)/(n*Vt)) + Rs/Rsh] *)
Definition df_of (J_guess : F) : result F :=
  let! c := py_div (J0 * Rs) (n * Vt) in
  let! r := py_div Rs Rsh in
  Ok (n_one + c * np_exp ((V + J_guess * Rs) / (n * Vt)) + r).

(** The local variables of the loop: [_], [J_guess] and [J_new]
    ([None] while unbound). *)
Record loop_state := mk_state {
  it : option nat;
  J_guess : F;
  J_new : option F
}.

(** [for _ in range(i, i + fuel)] with the body of lines 29-38 *)
Fixpoint for_range (fuel i : nat) (s : loop_state) : result loop_state :=
  match fuel with
  | O => Ok s
  | S fuel' =>
      let Jg := J_guess s in
      let f := f_of Jg in
      let! df := df_of Jg in
      let Jn := Jg - f / df in
      if n_abs (Jn - Jg) <? n_tol
      then Ok (mk_state (Some i) Jg (Some Jn))            (* break *)
      else for_range fuel' (S i) (mk_state (Some i) Jn (Some Jn))
  end.

(** lines 26-40 *)
Definition solar_cell_current : result F :=
  let! s := for_range 100 0 (mk_state None Jsc None) in
  match J_new s with
  | Some j => Ok j
  | None => Raise UnboundLocalError
  end.

End Solver.

(** ** The module (lines 4-17) and the call of [solar_cell_current] *)

Section Module.
Local Open Scope float_scope.

(** The module's global variables. *)
Record globals := mk_globals {
  g_Voc : float; g_Jsc : float; g_FF : float; g_eta : float;
  g_V_MPP : float; g_J_MPP : float;
  g_Vt : float; g_n : float; g_J0 : float; g_Rs : float; g_Rsh : float
}.

(** Lines 5-17 ([Rsh = 10000] is an int; it enters every use as 10000.0). *)
Definition module_globals : globals := {|
  g_Voc := 1.008312; g_Jsc := 30.52638788; g_FF := 0.883105;
  g_eta := 0.271821; g_V_MPP := 0.915723; g_J_MPP := 29.68373326;
  g_Vt := 0.02585; g_n := 1.2; g_J0 := 1e-12; g_Rs := 0.001;
  g_Rsh := 10000
|}.

(** The parameters after [V] in [def solar_cell_current(V, Jsc=Jsc, J0=J0,
    n=n, Rs=Rs, Rsh=Rsh)]; [None] when the caller leaves one out. *)
Record kwargs := mk_kwargs {
  kw_Jsc : option float; kw_J0 : option float; kw_n : option float;
  kw_Rs : option float; kw_Rsh : option float
}.

Definition no_kwargs : kwargs := mk_kwargs None None None None None.

(** The default values, evaluated once when the [def] runs (line 20). *)
Record defaults := mk_defaults {
  d_Jsc : float; d_J0 : float; d_n : float; d_Rs : float; d_Rsh : float
}.

Definition defaults_at_def : defaults :=
  mk_defaults (g_Jsc module_globals) (g_J0 module_globals) (g_n module_globals)
    (g_Rs module_globals) (g_Rsh module_globals).

Definition arg (o : option float) (d : float) : float :=
  match o with Some x => x | None => d end.

(** A call [solar_cell_current(V, **kw)] in the module state [g]: [Vt] is
    the global looked up at call time, the parameters come from [kw] or
    from the defaults; the call returns its result and the script's
    variables, which it does not assign.  The warnings [np.exp] can issue
    during the call, and the state they change, are added by [call_w]. *)
Definition call (np_exp : float -> float) (g : globals) (kw : kwargs)
    (V : float) : result float * globals :=
  (solar_cell_current np_exp (g_Vt g) V
     (arg (kw_Jsc kw) (d_Jsc defaults_at_def))
     (arg (kw_J0 kw) (d_J0 defaults_at_def))
     (arg (kw_n kw) (d_n defaults_at_def))
     (arg (kw_Rs kw) (d_Rs defaults_at_def))
     (arg (kw_Rsh kw) (d_Rsh defaults_at_def)),
   g).

(** ** The sweep (lines 42-45) *)

(** the float64 value of a small natural number ([arange]'s elements) *)
Fixpoint fnat (k : nat) : float :=
  match k with O => 0 | S k' => fnat k' + 1 end.

(** [np.linspace(start, stop, num)] (endpoint=True) *)
Definition linspace (start stop : float) (num : nat) : list float :=
  let div := (num - 1)%nat in
  let delta := stop - start in
  let y (i : nat) :=
    if Nat.ltb 0 div then
      let step := delta / fnat div in
      if step =? 0 then fnat i / fnat div * delta else fnat i * step
    else fnat i * delta in
  map (fun i => if Nat.ltb 1 num && Nat.eqb i (num - 1) then stop
                else y i + start)
      (seq 0 num).

(** line 43 *)
Definition V_range : list float :=
  linspace (-0.1) (g_Voc module_globals + 0.05) 500.

(** [[solve(V) for V in xs]]: the solver is called on the elements in
    order, threading the module state; [calls] records the arguments the
    calls received. *)
Fixpoint list_comp (solve : globals -> float -> result float * globals)
    (g : globals) (xs : list float) (calls : list float)
    : list float * result (list float) * globals :=
  match xs with
  | [] => (calls, Ok [], g)
  | x :: xs' =>
      let calls' := calls ++ [x] in
      match solve g x with
      | (Raise e, g') => (calls', Raise e, g')
      | (Ok j, g') =>
          match list_comp solve g' xs' calls' with
          | (c, r, g'') => (c, let! js := r in Ok (j :: js), g'')
          end
      end
  end.

(** numpy's elementwise product of two arrays of one length *)
Definition np_mul (xs ys : list float) : list float :=
  map (fun p => fst p * snd p) (combine xs ys).

(** Lines 43-45: the calls made, [(J_range, P_range)], and the module state
    afterwards. *)
Definition sweep (np_exp : float -> float)
    : list float * result (list float * list float) * globals :=
  match list_comp (fun g V => call np_exp g no_kwargs V) module_globals
          V_range [] with
  | (calls, r, g) =>
      (calls, let! J_range := r in Ok (J_range, np_mul V_range J_range), g)
  end.

(** ** A binary64 exponential for concrete runs

    numpy's [exp] is the platform's libm [exp]; results below only depend
    on what every binary64 [exp] does: [+inf] above 709.78 (overflow) and
    [nan] on [nan].  In between this one is a Taylor polynomial at [x/1024]
    squared ten times. *)
Fixpoint horner (k : nat) (y acc : float) : float :=
  match k with O => acc | S k' => horner k' y (1 + y * acc / fnat k) end.

Fixpoint square_n (m : nat) (x : float) : float :=
  match m with O => x | S m' => square_n m' (x * x) end.

Definition np_exp_model (x : float) : float :=
  if PrimFloat.is_nan x then nan
  else if 709.782712893384 <? x then infinity
  else if x <? -745.2 then 0
  else square_n 10 (horner 20 (x / 1024) 1).

End Module.

(** ** The iteration the loop runs *)

Section Iteration.
Context {F : Type} `{PyNum F}.
Local Open Scope py_scope.
Variable np_exp : F -> F.
Variable Vt : F.
Variables (V Jsc J0 n Rs Rsh : F).

(** neither Python division of [df] raises *)
Definition divisors_ok : bool := negb (n * Vt =? n_zero) && negb (Rsh =? n_zero).

(** [df] once both divisions went through *)
Definition df_pure (J : F) : F :=
  n_one + (J0 * Rs) / (n * Vt) * np_exp ((V + J * Rs) / (n * Vt)) + Rs / Rsh.

Definition newton_update (J : F) : F := J - f_of np_exp Vt V Jsc J0 n Rs Rsh J / df_pure J.

(** the iterates from [J_guess = Jsc] *)
Fixpoint code_iter (k : nat) : F :=
  match k with O => Jsc | S k' => newton_update (code_iter k') end.

(** the test of line 36 at step [k] *)
Definition small (k : nat) : bool :=
  n_abs (code_iter (S k) - code_iter k) <? n_tol.

(** the value of [_] in the last pass through the body of
    [for _ in range(i, i + fuel + 1)] *)
Fixpoint stop_at (fuel i : nat) : nat :=
  if small i then i
  else match fuel with O => i | S fuel' => stop_at fuel' (S i) end.

Lemma df_of_ok (J : F) :
  divisors_ok = true -> df_of np_exp Vt V J0 n Rs Rsh J = Ok (df_pure J).
Proof.
  unfold divisors_ok, df_of, df_pure, py_div.
  destruct (n * Vt =? n_zero), (Rsh =? n_zero); simpl; congruence.
Qed.

Lemma df_of_raise (J : F) :
  divisors_ok = false ->
  df_of np_exp Vt V J0 n Rs Rsh J = Raise ZeroDivisionError.
Proof.
  unfold divisors_ok, df_of, py_div.
  destruct (n * Vt =? n_zero), (Rsh =? n_zero); simpl; congruence.
Qed.

Lemma for_range_body (fuel i : nat) (s : loop_state) :
  divisors_ok = true ->
  for_range np_exp Vt V Jsc J0 n Rs Rsh (S fuel) i s =
  if n_abs (newton_update (J_guess s) - J_guess s) <? n_tol
  then Ok (mk_state (Some i) (J_guess s) (Some (newton_update (J_guess s))))
  else for_range np_exp Vt V Jsc J0 n Rs Rsh fuel (S i)
         (mk_state (Some i) (newton_update (J_guess s))
            (Some (newton_update (J_guess s)))).
Proof. intros Hd. cbn [for_range]. rewrite (df_of_ok _ Hd). reflexivity. Qed.

Lemma for_range_run (fuel i : nat) (s : loop_state) :
  divisors_ok = true -> J_guess s = code_iter i ->
  for_range np_exp Vt V Jsc J0 n Rs Rsh (S fuel) i s =
  Ok (mk_state (Some (stop_at fuel i))
        (if small (stop_at fuel i) then code_iter (stop_at fuel i)
         else code_iter (S (stop_at fuel i)))
        (Some (code_iter (S (stop_at fuel i))))).
Proof.
  intros Hd. revert i s.
  induction fuel as [| fuel IH]; intros i s Hs;
    rewrite (for_range_body _ _ _ Hd), Hs;
    change (n_abs (newton_update (code_iter i) - code_iter i) <? n_tol)
      with (small i);
    cbn [stop_at]; destruct (small i) eqn:E; rewrite ?E; try reflexivity.
  exact (IH (S i) (mk_state (Some i) (newton_update (code_iter i))
                       (Some (newton_update (code_iter i)))) eq_refl).
Qed.

Lemma for_range_raise (fuel i : nat) (s : loop_state) :
  divisors_ok = false ->
  for_range np_exp Vt V Jsc J0 n Rs Rsh (S fuel) i s = Raise ZeroDivisionError.
Proof. intros Hd. cbn [for_range]. rewrite (df_of_raise _ Hd). reflexivity. Qed.

Lemma stop_at_bounds (fuel i : nat) :
  (i <= stop_at fuel i <= i + fuel)%nat.
Proof.
  revert i; induction fuel as [| fuel IH]; intros i; cbn [stop_at].
  - destruct (small i); lia.
  - destruct (small i); [lia |]. specialize (IH (S i)). lia.
Qed.

Lemma stop_at_first (fuel i j : nat) :
  (i <= j < stop_at fuel i)%nat -> small j = false.
Proof.
  revert i; induction fuel as [| fuel IH]; intros i Hj; cbn [stop_at] in Hj.
  - destruct (small i); lia.
  - destruct (small i) eqn:E; [lia |].
    destruct (Nat.eq_dec i j) as [<- | Hne]; [exact E |].
    apply (IH (S i)). lia.
Qed.

Lemma stop_at_last (fuel i : nat) :
  small (stop_at fuel i) = true \/ stop_at fuel i = (i + fuel)%nat.
Proof.
  revert i; induction fuel as [| fuel IH]; intros i; cbn [stop_at].
  - destruct (small i) eqn:E; [left; exact E | right; lia].
  - destruct (small i) eqn:E; [left; exact E |].
    destruct (IH (S i)) as [Hl | Hr]; [left; exact Hl | right; lia].
Qed.

(** The whole call: a [ZeroDivisionError] in the first pass, or the
    iterate after the last pass. *)
Lemma solar_cell_current_eq :
  solar_cell_current np_exp Vt V Jsc J0 n Rs Rsh =
  if divisors_ok then Ok (code_iter (S (stop_at 99 0)))
  else Raise ZeroDivisionError.
Proof.
  unfold solar_cell_current.
  destruct divisors_ok eqn:Hd.
  - rewrite (for_range_run 99 0 (mk_state None Jsc None) Hd eq_refl). reflexivity.
  - rewrite (for_range_raise 99 0 _ Hd). reflexivity.
Qed.

End Iteration.

(** ** The Newton-Raphson iteration in the words of the specification (4.1) *)

Section SpecNewton.
Context {F : Type} `{PyNum F}.
Local Open Scope py_scope.
Variables (exp : F -> F) (Vt V Jsc J0 n Rs Rsh : F).

(** f(J) = J - Jsc + J0*(exp((V + J*Rs)/(n*Vt)) - 1) + (V + J*Rs)/Rsh *)
Definition spec_f (J : F) : F :=
  J - Jsc + J0 * (exp ((V + J * Rs) / (n * Vt)) - n_one) + (V + J * Rs) / Rsh.

(** f'(J) = 1 + (J0*Rs/(n*Vt))*exp((V + J*Rs)/(n*Vt)) + Rs/Rsh *)
Definition spec_df (J : F) : F :=
  n_one + (J0 * Rs / (n * Vt)) * exp ((V + J * Rs) / (n * Vt)) + Rs / Rsh.

(** J_{k+1} = J_k - f(J_k)/f'(J_k) *)
Definition spec_update (J : F) : F := J - spec_f J / spec_df J.

(** J_0 = Jsc *)
Fixpoint spec_iter (k : nat) : F :=
  match k with O => Jsc | S k' => spec_update (spec_iter k') end.

End SpecNewton.

Section SolverFacts.
Context {F : Type} `{PyNum F}.
Variables (np_exp : F -> F) (Vt V Jsc J0 n Rs Rsh : F).

Lemma code_iter_spec_iter (k : nat) :
  code_iter np_exp Vt V Jsc J0 n Rs Rsh k = spec_iter np_exp Vt V Jsc J0 n Rs Rsh k.
Proof. induction k as [| k IH]; cbn [code_iter spec_iter]; [reflexivity | rewrite IH; reflexivity]. Qed.

Lemma stop_at_small_mem (fuel : nat) :
  small np_exp Vt V Jsc J0 n Rs Rsh (stop_at np_exp Vt V Jsc J0 n Rs Rsh fuel 0) = true ->
  existsb (small np_exp Vt V Jsc J0 n Rs Rsh) (seq 0 (S fuel)) = true.
Proof.
  intros Hs. apply existsb_exists.
  exists (stop_at np_exp Vt V Jsc J0 n Rs Rsh fuel 0). split; [| exact Hs].
  apply in_seq. pose proof (stop_at_bounds np_exp Vt V Jsc J0 n Rs Rsh fuel 0). lia.
Qed.

End SolverFacts.

(** C1 (amended).  The solver evaluates the specification's [f] and [f'] at
    the current iterate and applies the Newton update from [J_0 = Jsc]: when
    neither [n*Vt] nor [Rsh] is zero it returns the specification's iterate
    [J_m] for some [1 <= m <= 100]; when one of them is zero, Python's float
    division raises [ZeroDivisionError] in the first pass. *)
Theorem C1_newton_as_specified {F : Type} `{PyNum F} (np_exp : F -> F)
    (Vt V Jsc J0 n Rs Rsh : F) :
  (forall J, f_of np_exp Vt V Jsc J0 n Rs Rsh J = spec_f np_exp Vt V Jsc J0 n Rs Rsh J) /\
  (divisors_ok Vt n Rsh = true ->
     (forall J, df_of np_exp Vt V J0 n Rs Rsh J = Ok (spec_df np_exp Vt V J0 n Rs Rsh J)) /\
     exists m, (1 <= m <= 100)%nat /\
       solar_cell_current np_exp Vt V Jsc J0 n Rs Rsh
       = Ok (spec_iter np_exp Vt V Jsc J0 n Rs Rsh m)) /\
  (divisors_ok Vt n Rsh = false ->
     solar_cell_current np_exp Vt V Jsc J0 n Rs Rsh = Raise ZeroDivisionError).
Proof.
  split; [intros J; reflexivity |]. split.
  - intros Hd. split.
    + intros J. apply df_of_ok. exact Hd.
    + exists (S (stop_at np_exp Vt V Jsc J0 n Rs Rsh 99 0)). split.
      * pose proof (stop_at_bounds np_exp Vt V Jsc J0 n Rs Rsh 99 0). lia.
      * rewrite solar_cell_current_eq, Hd, code_iter_spec_iter. reflexivity.
  - intros Hd. rewrite solar_cell_current_eq, Hd. reflexivity.
Qed.

(** C2.  The loop always ends: either the first pass raises
    [ZeroDivisionError] (a zero [n*Vt] or [Rsh]), or the loop variable [_]
    ends at [m - 1] for some [1 <= m <= 100], the call returns the iterate
    [J_m] after [m] Newton updates, no earlier step met
    [|J_{k+1} - J_k| < 1e-10], and the last one did or the cap of 100 was
    reached. *)
Theorem C2_terminates_within_cap {F : Type} `{PyNum F} (np_exp : F -> F)
    (Vt V Jsc J0 n Rs Rsh : F) :
  (divisors_ok Vt n Rsh = false /\
   solar_cell_current np_exp Vt V Jsc J0 n Rs Rsh = Raise ZeroDivisionError) \/
  exists m st, (1 <= m <= 100)%nat /\
    for_range np_exp Vt V Jsc J0 n Rs Rsh 100 0 (mk_state None Jsc None) = Ok st /\
    it st = Some (m - 1)%nat /\
    solar_cell_current np_exp Vt V Jsc J0 n Rs Rsh
      = Ok (code_iter np_exp Vt V Jsc J0 n Rs Rsh m) /\
    (forall k, (k + 1 < m)%nat -> small np_exp Vt V Jsc J0 n Rs Rsh k = false) /\
    (small np_exp Vt V Jsc J0 n Rs Rsh (m - 1) = true \/ m = 100%nat).
Proof.
  destruct (divisors_ok Vt n Rsh) eqn:Hd.
  - right. set (k := stop_at np_exp Vt V Jsc J0 n Rs Rsh 99 0).
    pose proof (stop_at_bounds np_exp Vt V Jsc J0 n Rs Rsh 99 0) as Hb.
    eexists (S k), _. split; [lia |]. split.
    { exact (for_range_run np_exp Vt V Jsc J0 n Rs Rsh 99 0 (mk_state None Jsc None) Hd eq_refl). }
    split; [cbn; f_equal; lia |]. split.
    { rewrite solar_cell_current_eq, Hd. reflexivity. }
    split.
    + intros j Hj. apply (stop_at_first np_exp Vt V Jsc J0 n Rs Rsh 99 0 j). lia.
    + replace (S k - 1)%nat with k by lia.
      destruct (stop_at_last np_exp Vt V Jsc J0 n Rs Rsh 99 0) as [Hl | Hr];
        [left; exact Hl | right; fold k in Hr; lia].
  - left. split; [reflexivity |]. rewrite solar_cell_current_eq, Hd. reflexivity.
Qed.

(** C3.  If none of the 100 steps meets [|J_{k+1} - J_k| < 1e-10], the call
    still returns normally: the plain number [J_100], the last iterate,
    exactly as a converged call returns its iterate. *)
Theorem C3_nonconvergence_silent {F : Type} `{PyNum F} (np_exp : F -> F)
    (Vt V Jsc J0 n Rs Rsh : F)
    (Hd : divisors_ok Vt n Rsh = true)
    (Hnc : existsb (small np_exp Vt V Jsc J0 n Rs Rsh) (seq 0 100) = false) :
  solar_cell_current np_exp Vt V Jsc J0 n Rs Rsh
  = Ok (code_iter np_exp Vt V Jsc J0 n Rs Rsh 100).
Proof.
  rewrite solar_cell_current_eq, Hd.
  destruct (stop_at_last np_exp Vt V Jsc J0 n Rs Rsh 99 0) as [Hl | Hr].
  - apply stop_at_small_mem in Hl. congruence.
  - rewrite Hr. reflexivity.
Qed.

(** ** Facts about the program's binary64 runs *)

Section Float64Runs.
Local Open Scope float_scope.

Lemma stop_at_never_small {F : Type} `{PyNum F} (np_exp : F -> F)
    (Vt V Jsc J0 n Rs Rsh : F) (fuel i : nat) :
  (forall k, small np_exp Vt V Jsc J0 n Rs Rsh k = false) ->
  stop_at np_exp Vt V Jsc J0 n Rs Rsh fuel i = (i + fuel)%nat.
Proof.
  intros Hk. destruct (stop_at_last np_exp Vt V Jsc J0 n Rs Rsh fuel i) as [Hl | Hr];
    [rewrite Hk in Hl; discriminate | exact Hr].
Qed.

(** The arguments a call receives from its keyword arguments. *)
Lemma call_eq (exp : float -> float) (g : globals) (kw : kwargs) (V : float) :
  call exp g kw V =
  (solar_cell_current exp (g_Vt g) V (arg (kw_Jsc kw) 30.52638788)
     (arg (kw_J0 kw) 1e-12) (arg (kw_n kw) 1.2) (arg (kw_Rs kw) 0.001)
     (arg (kw_Rsh kw) 10000), g).
Proof. reflexivity. Qed.

End Float64Runs.

(** C4 (counterexample).  At [V = 1000] with the reference parameters the
    exponential argument [(V + J*Rs)/(n*Vt)] overflows [exp], and the call
    returns [nan] as an ordinary result: there is no overflow error. *)
Lemma C4_overflow_returns_nan :
  np_exp_model ((1000 + 30.52638788 * 0.001) / (1.2 * 0.02585))%float = infinity /\
  fst (call np_exp_model module_globals no_kwargs 1000%float) = Ok nan.
Proof. split; vm_compute; reflexivity. Qed.

(** C5 (counterexample).  A negative shunt resistance or ideality factor is
    not rejected: the call runs the iteration and returns a number. *)
Lemma C5_negative_parameters_accepted :
  (exists j, fst (call np_exp_model module_globals
                    (mk_kwargs None None None None (Some (-10000)%float)) 0.5%float) = Ok j) /\
  (exists j, fst (call np_exp_model module_globals
                    (mk_kwargs None None (Some (-1.2)%float) None None) 0.5%float) = Ok j).
Proof. split; eexists; vm_compute; reflexivity. Qed.

(** C5 (amended).  No parameter is checked before the loop: [Vt] is not a
    parameter at all (the global is read), and whatever [n] and [Rsh] the
    caller passes, negative ones included, enter the iteration as given.
    The only failure is Python's [ZeroDivisionError] in the first pass, when
    [n*Vt] or [Rsh] is zero; otherwise the call returns the iterate the loop
    stops at. *)
Theorem C5_no_parameter_validation (exp : float -> float) (g : globals)
    (kw : kwargs) (V : float) :
  let Jsc := arg (kw_Jsc kw) 30.52638788 in
  let J0 := arg (kw_J0 kw) 1e-12 in
  let n := arg (kw_n kw) 1.2 in
  let Rs := arg (kw_Rs kw) 0.001 in
  let Rsh := arg (kw_Rsh kw) 10000 in
  fst (call exp g kw V) =
  if negb (n * g_Vt g =? 0)%float && negb (Rsh =? 0)%float
  then Ok (code_iter exp (g_Vt g) V Jsc J0 n Rs Rsh
             (S (stop_at exp (g_Vt g) V Jsc J0 n Rs Rsh 99 0)))
  else Raise ZeroDivisionError.
Proof. intros. rewrite call_eq. cbn [fst]. exact (solar_cell_current_eq exp (g_Vt g) V Jsc J0 n Rs Rsh). Qed.

(** ** The sweep *)

Section SweepFacts.
Local Open Scope float_scope.

(** [x_0 < x_1 < ...] *)
Fixpoint strictly_increasing (l : list float) : bool :=
  match l with
  | x :: ((y :: _) as t) => (x <? y) && strictly_increasing t
  | _ => true
  end.

(** the value a default-parameter call returns at [V] *)
Definition solved_J (exp : float -> float) (V : float) : float :=
  code_iter exp 0.02585 V 30.52638788 1e-12 1.2 0.001 10000
    (S (stop_at exp 0.02585 V 30.52638788 1e-12 1.2 0.001 10000 99 0)).

Lemma call_default (exp : float -> float) (V : float) :
  call exp module_globals no_kwargs V = (Ok (solved_J exp V), module_globals).
Proof.
  rewrite call_eq. cbn [arg kw_Jsc kw_J0 kw_n kw_Rs kw_Rsh no_kwargs g_Vt module_globals].
  rewrite solar_cell_current_eq. reflexivity.
Qed.

Lemma list_comp_default (exp : float -> float) (xs calls : list float) :
  list_comp (fun g V => call exp g no_kwargs V) module_globals xs calls =
  (calls ++ xs, Ok (map (solved_J exp) xs), module_globals).
Proof.
  revert calls. induction xs as [| x xs IH]; intros calls.
  - cbn. rewrite app_nil_r. reflexivity.
  - cbn [list_comp]. rewrite call_default, IH, <- app_assoc. reflexivity.
Qed.

Lemma V_range_length : length V_range = 500%nat.
Proof. reflexivity. Qed.

Lemma nth_map_lt {A B : Type} (f : A -> B) (l : list A) (i : nat) (d : A) (d' : B) :
  (i < length l)%nat -> nth i (map f l) d' = f (nth i l d).
Proof.
  intros Hi. rewrite (nth_indep _ d' (f d)) by (rewrite length_map; exact Hi).
  apply map_nth.
Qed.

Lemma nth_map_seq {A : Type} (f : nat -> A) (i m : nat) (d : A) :
  (i < m)%nat -> nth i (map f (seq 0 m)) d = f i.
Proof.
  intros Hi. rewrite (nth_indep _ d (f 0%nat)) by (rewrite length_map, length_seq; exact Hi).
  rewrite map_nth, seq_nth by exact Hi. reflexivity.
Qed.

Lemma V_range_nth (i : nat) :
  (i < 500)%nat ->
  nth i V_range 0 =
  if Nat.eqb i 499 then 1.008312 + 0.05
  else fnat i * ((1.008312 + 0.05 - -0.1) / 499) + -0.1.
Proof.
  intros Hi. unfold V_range, linspace. cbv zeta.
  rewrite nth_map_seq by exact Hi. cbn [Nat.sub Nat.ltb g_Voc module_globals andb].
  replace (fnat 499) with 499 by (vm_compute; reflexivity).
  replace ((1.008312 + 0.05 - -0.1) / 499 =? 0) with false by (vm_compute; reflexivity).
  reflexivity.
Qed.

End SweepFacts.

(** C8.  [V_range] is [np.linspace(-0.1, Voc + 0.05, 500)]: 500 samples,
    the first [-0.1], the last [Voc + 0.05], sample [i < 499] equal to
    [i*step - 0.1] with [step = (Voc + 0.05 + 0.1)/499], in strictly
    increasing order.  The comprehension calls the solver once per sample,
    in the order of [V_range], and [P_range] is the elementwise product
    [V*J]. *)
Theorem C8_sweep_grid_and_power (exp : float -> float) :
  length V_range = 500%nat /\
  nth 0 V_range 0%float = (-0.1)%float /\
  nth 499 V_range 0%float = (1.008312 + 0.05)%float /\
  (forall i, (i < 499)%nat ->
     nth i V_range 0%float = (fnat i * ((1.008312 + 0.05 - -0.1) / 499) + -0.1)%float) /\
  strictly_increasing V_range = true /\
  sweep exp = (V_range,
               Ok (map (solved_J exp) V_range,
                   np_mul V_range (map (solved_J exp) V_range)),
               module_globals) /\
  (forall i, (i < 500)%nat ->
     nth i (np_mul V_range (map (solved_J exp) V_range)) 0%float =
     (nth i V_range 0 * nth i (map (solved_J exp) V_range) 0)%float).
Proof.
  split; [reflexivity |]. split; [vm_compute; reflexivity |].
  split; [vm_compute; reflexivity |]. split.
  { intros i Hi. rewrite V_range_nth by lia.
    destruct (Nat.eqb i 499) eqn:E; [apply Nat.eqb_eq in E; lia | reflexivity]. }
  split; [vm_compute; reflexivity |]. split.
  { unfold sweep. rewrite list_comp_default. reflexivity. }
  intros i Hi. unfold np_mul.
  rewrite (nth_map_lt _ _ i (0%float, 0%float))
    by (rewrite length_combine, length_map, V_range_length; lia).
  rewrite combine_nth by (rewrite length_map; reflexivity). reflexivity.
Qed.

(** C10.  A call has no [Vt] parameter: it reads the module's [Vt]
    (0.02585), which no statement of the script reassigns, while [Jsc],
    [J0], [n], [Rs] and [Rsh] are the caller's keyword values or the
    defaults fixed from the module constants when the [def] ran. *)
Theorem C10_Vt_module_constant (exp : float -> float) (kw : kwargs) (V : float) :
  g_Vt module_globals = 0.02585%float /\
  call exp module_globals kw V =
  (solar_cell_current exp 0.02585%float V
     (arg (kw_Jsc kw) (g_Jsc module_globals)) (arg (kw_J0 kw) (g_J0 module_globals))
     (arg (kw_n kw) (g_n module_globals)) (arg (kw_Rs kw) (g_Rs module_globals))
     (arg (kw_Rsh kw) (g_Rsh module_globals)),
   module_globals) /\
  (let '(_, _, g) := sweep exp in g_Vt g = 0.02585%float).
Proof.
  split; [reflexivity |]. split; [reflexivity |].
  unfold sweep. rewrite list_comp_default. reflexivity.
Qed.

Local Open Scope float_scope.

(** C9 (counterexample).  With the reference parameters at [V = 1000] the
    first iterate is [nan] and the derivative of the second pass is [nan],
    which is not at least 1. *)
Lemma C9_df_nan_at_1000 :
  df_of np_exp_model 0.02585 1000 1e-12 1.2 0.001 10000
    (code_iter np_exp_model 0.02585 1000 30.52638788 1e-12 1.2 0.001 10000 1)
  = Ok nan /\ (1 <=? nan)%float = false.
Proof. split; vm_compute; reflexivity. Qed.

(** ** Witnesses and counterexamples of the solver claims *)

(** C1 (counterexample).  With [Rsh = 0] the call raises
    [ZeroDivisionError] in its first pass instead of producing an iterate. *)
Lemma C1_zero_Rsh_raises :
  fst (call np_exp_model module_globals
         (mk_kwargs None None None None (Some 0%float)) 0.5%float)
  = Raise ZeroDivisionError.
Proof. vm_compute. reflexivity. Qed.

Lemma C1_newton_as_specified_witness :
  divisors_ok 0.02585%float 1.2%float 10000%float = true /\
  exists m, (1 <= m <= 100)%nat /\
    solar_cell_current np_exp_model 0.02585 0.5 30.52638788 1e-12 1.2 0.001 10000
    = Ok (spec_iter np_exp_model 0.02585 0.5 30.52638788 1e-12 1.2 0.001 10000 m).
Proof.
  assert (Hd : divisors_ok 0.02585%float 1.2%float 10000%float = true)
    by (vm_compute; reflexivity).
  split; [exact Hd |].
  exact (proj2 (proj1 (proj2 (C1_newton_as_specified np_exp_model
                                 0.02585 0.5 30.52638788 1e-12 1.2 0.001 10000)) Hd)).
Defined.

Lemma C3_nonconvergence_silent_witness :
  solar_cell_current np_exp_model 0.02585 1000 30.52638788 1e-12 1.2 0.001 10000
  = Ok (code_iter np_exp_model 0.02585 1000 30.52638788 1e-12 1.2 0.001 10000 100).
Proof.
  apply C3_nonconvergence_silent; vm_compute; reflexivity.
Defined.

(** ** Further properties of the solver and the sweep *)

(** *** [nan] in binary64 arithmetic *)

Section NanArith.
Local Open Scope float_scope.

Lemma Prim2SF_nan : Prim2SF nan = S754_nan.
Proof. reflexivity. Qed.

Ltac nan_by spec :=
  apply Prim2SF_inj; rewrite spec; rewrite ?Prim2SF_nan;
  match goal with |- context [Prim2SF ?x] => destruct (Prim2SF x) end; reflexivity.

Lemma add_nan_l x : nan + x = nan. Proof. nan_by add_spec. Qed.
Lemma add_nan_r x : x + nan = nan. Proof. nan_by add_spec. Qed.
Lemma sub_nan_l x : nan - x = nan. Proof. nan_by sub_spec. Qed.
Lemma sub_nan_r x : x - nan = nan. Proof. nan_by sub_spec. Qed.
Lemma mul_nan_l x : nan * x = nan. Proof. nan_by mul_spec. Qed.
Lemma mul_nan_r x : x * nan = nan. Proof. nan_by mul_spec. Qed.
Lemma div_nan_l x : nan / x = nan. Proof. nan_by div_spec. Qed.
Lemma div_nan_r x : x / nan = nan. Proof. nan_by div_spec. Qed.
Lemma abs_nan : abs nan = nan. Proof. reflexivity. Qed.
Lemma ltb_nan_l x : (nan <? x) = false.
Proof. rewrite ltb_spec, Prim2SF_nan. reflexivity. Qed.

End NanArith.

Create Rewrite HintDb nan_db.
#[export] Hint Rewrite add_nan_l add_nan_r sub_nan_l sub_nan_r mul_nan_l mul_nan_r
  div_nan_l div_nan_r abs_nan ltb_nan_l : nan_db.

Section NanRuns.
Local Open Scope float_scope.
Variables (exp : float -> float) (Vt V Jsc J0 n Rs Rsh : float).

Lemma update_nan : newton_update exp Vt V Jsc J0 n Rs Rsh nan = nan.
Proof.
  unfold newton_update, f_of. cbn [n_add n_sub n_mul n_div float64_num].
  autorewrite with nan_db. reflexivity.
Qed.

Lemma iter_nan_from (k j : nat) :
  code_iter exp Vt V Jsc J0 n Rs Rsh k = nan ->
  code_iter exp Vt V Jsc J0 n Rs Rsh (j + k) = nan.
Proof.
  intros Hk. induction j as [| j IH]; [exact Hk |].
  cbn [Nat.add code_iter]. rewrite IH. apply update_nan.
Qed.

Lemma small_nan (k : nat) :
  code_iter exp Vt V Jsc J0 n Rs Rsh (S k) = nan ->
  small exp Vt V Jsc J0 n Rs Rsh k = false.
Proof.
  intros Hk. unfold small. rewrite Hk.
  cbn [n_sub n_abs n_ltb n_tol float64_num]. autorewrite with nan_db. reflexivity.
Qed.

(** A [nan] in [V], [Jsc], [J0], [Rs] or [Rsh] makes the first update [nan]. *)
Lemma first_update_nan :
  (V = nan \/ Jsc = nan \/ J0 = nan \/ Rs = nan \/ Rsh = nan) ->
  code_iter exp Vt V Jsc J0 n Rs Rsh 1 = nan.
Proof.
  intros Hn. cbn [code_iter]. unfold newton_update, f_of.
  cbn [n_add n_sub n_mul n_div n_one float64_num].
  destruct Hn as [-> | [-> | [-> | [-> | ->]]]]; autorewrite with nan_db; reflexivity.
Qed.

End NanRuns.

(** X1.  [nan] is absorbing: if [V], [Jsc], [J0], [Rs] or [Rsh] is [nan], or
    the first update is [nan] (as after an overflowing [exp]), and neither
    division of the derivative raises, then the loop never breaks, makes all
    100 passes, and the call returns [nan]. *)
Theorem X1_nan_runs_to_cap (exp : float -> float) (Vt V Jsc J0 n Rs Rsh : float)
    (Hd : divisors_ok Vt n Rsh = true)
    (Hn : (V = nan \/ Jsc = nan \/ J0 = nan \/ Rs = nan \/ Rsh = nan) \/
          code_iter exp Vt V Jsc J0 n Rs Rsh 1 = nan) :
  stop_at exp Vt V Jsc J0 n Rs Rsh 99 0 = 99%nat /\
  solar_cell_current exp Vt V Jsc J0 n Rs Rsh = Ok nan.
Proof.
  assert (H1 : code_iter exp Vt V Jsc J0 n Rs Rsh 1 = nan).
  { destruct Hn as [Hn | Hn]; [apply first_update_nan; exact Hn | exact Hn]. }
  assert (Hall : forall k, code_iter exp Vt V Jsc J0 n Rs Rsh (S k) = nan).
  { intros k. replace (S k) with (k + 1)%nat by lia. apply iter_nan_from. exact H1. }
  assert (Hstop : stop_at exp Vt V Jsc J0 n Rs Rsh 99 0 = 99%nat).
  { apply stop_at_never_small. intros k. apply small_nan, Hall. }
  split; [exact Hstop |].
  rewrite solar_cell_current_eq, Hd, Hstop, Hall. reflexivity.
Qed.

Lemma X1_nan_runs_to_cap_witness :
  stop_at np_exp_model 0.02585 nan 30.52638788 1e-12 1.2 0.001 10000 99 0 = 99%nat /\
  solar_cell_current np_exp_model 0.02585 nan 30.52638788 1e-12 1.2 0.001 10000 = Ok nan.
Proof.
  apply X1_nan_runs_to_cap.
  - vm_compute. reflexivity.
  - left. left. reflexivity.
Defined.

(** *** Order and infinities in binary64 arithmetic

    What [FloatAxioms] tells about [+], [-], [*] and [/] through the
    specification floats [spec_float]: a sum with a term at least 1 and the
    other non-negative is at least 1 (or [nan]); a product or quotient of
    non-negative numbers is non-negative (or [nan]); an infinite or [nan]
    operand makes the result infinite or [nan]; and [inf/inf] is [nan]. *)

Section Binary64Order.
Local Open Scope Z_scope.

Lemma digits2_size (p : positive) : digits2_pos p = Pos.size p.
Proof. induction p; cbn; congruence. Qed.

Lemma zdigits_log2 (p : positive) : Zpos (digits2_pos p) = Z.log2 (Zpos p) + 1.
Proof.
  rewrite digits2_size. destruct p; cbn [Z.log2]; try rewrite Pos.add_1_r; cbn; lia.
Qed.

Lemma shr_1_m (mrs : shr_record) :
  0 <= shr_m mrs -> shr_m (shr_1 mrs) = Z.div2 (shr_m mrs).
Proof.
  destruct mrs as [m r s]; cbn [shr_m]. intros Hm.
  destruct m as [| [p|p|] | p]; cbn; try reflexivity; lia.
Qed.

Lemma iter_shr_m (p : positive) (mrs : shr_record) :
  0 <= shr_m mrs -> shr_m (SpecFloat.iter_pos shr_1 p mrs) = Z.shiftr (shr_m mrs) (Zpos p)
                  /\ 0 <= shr_m (SpecFloat.iter_pos shr_1 p mrs).
Proof.
  revert mrs. induction p as [p IH | p IH |]; intros mrs Hm; cbn [SpecFloat.iter_pos].
  - assert (H1 : 0 <= shr_m (shr_1 mrs)) by (rewrite shr_1_m by exact Hm; apply Z.div2_nonneg; exact Hm).
    destruct (IH _ H1) as [E1 P1]. destruct (IH _ P1) as [E2 P2].
    split; [| exact P2]. rewrite E2, E1, shr_1_m, Z.div2_spec by exact Hm.
    rewrite !Z.shiftr_shiftr by lia. f_equal. lia.
  - destruct (IH _ Hm) as [E1 P1]. destruct (IH _ P1) as [E2 P2].
    split; [| exact P2]. rewrite E2, E1. rewrite Z.shiftr_shiftr by lia. f_equal. lia.
  - rewrite shr_1_m, Z.div2_spec by exact Hm. split; [reflexivity |].
    apply Z.shiftr_nonneg. exact Hm.
Qed.

Lemma shr_record_of_loc_m (m : Z) (l : location) : shr_m (shr_record_of_loc m l) = m.
Proof. destruct l as [| []]; reflexivity. Qed.

Lemma shr_fexp_spec (m e : Z) (l : location) :
  0 <= m ->
  snd (shr_fexp 53 1024 m e l) = Z.max e (fexp 53 1024 (Zdigits2 m + e)) /\
  shr_m (fst (shr_fexp 53 1024 m e l)) = Z.shiftr m (Z.max e (fexp 53 1024 (Zdigits2 m + e)) - e).
Proof.
  intros Hm. unfold shr_fexp, shr.
  destruct (fexp 53 1024 (Zdigits2 m + e) - e) as [| p | p] eqn:Hd; cbn [fst snd].
  - rewrite shr_record_of_loc_m. split; [lia |]. replace (Z.max e _ - e) with 0 by lia.
    rewrite Z.shiftr_0_r. reflexivity.
  - destruct (iter_shr_m p (shr_record_of_loc m l)) as [E _];
      [rewrite shr_record_of_loc_m; exact Hm |].
    rewrite E, shr_record_of_loc_m. split; [lia |]. f_equal. lia.
  - rewrite shr_record_of_loc_m. split; [lia |]. replace (Z.max e _ - e) with 0 by lia.
    rewrite Z.shiftr_0_r. reflexivity.
Qed.

Lemma Zdigits2_log2 (m : Z) : 0 < m -> Zdigits2 m = Z.log2 m + 1.
Proof. intros Hm. destruct m as [| p | p]; try lia. cbn [Zdigits2]. apply zdigits_log2. Qed.

(** one rounding step keeps a value of at least 1 at least 1 *)
Lemma shr_fexp_ge1 (m e : Z) (l : location) :
  0 < m -> 0 <= Z.log2 m + e ->
  -52 <= snd (shr_fexp 53 1024 m e l) /\
  0 < shr_m (fst (shr_fexp 53 1024 m e l)) /\
  Z.log2 (shr_m (fst (shr_fexp 53 1024 m e l))) + snd (shr_fexp 53 1024 m e l)
  = Z.log2 m + e.
Proof.
  intros Hm Hle. destruct (shr_fexp_spec m e l ltac:(lia)) as [Ee Em].
  rewrite Em, Ee. rewrite Zdigits2_log2 by exact Hm.
  unfold fexp, emin.
  set (e' := Z.max e (Z.max (Z.log2 m + 1 + e - 53) (3 - 1024 - 53))).
  pose proof (Z.log2_nonneg m).
  assert (Hd : 0 <= e' - e <= Z.log2 m) by (unfold e'; lia).
  assert (Hl : Z.log2 (Z.shiftr m (e' - e)) = Z.log2 m - (e' - e)).
  { rewrite Z.log2_shiftr by exact Hm. lia. }
  split; [unfold e'; lia |]. split; [| lia].
  assert (0 <= Z.shiftr m (e' - e)) by (apply Z.shiftr_nonneg; lia).
  destruct (Z.eq_dec (Z.shiftr m (e' - e)) 0) as [E0 | ]; [| lia].
  apply Z.shiftr_eq_0_iff in E0. lia.
Qed.

(** [1.0] *)
Definition sf_one : spec_float := S754_finite false 4503599627370496 (-52).

Lemma round_aux_ge1 (m e : Z) :
  0 < m -> 0 <= Z.log2 m + e ->
  SFleb sf_one (binary_round_aux 53 1024 false m e loc_Exact) = true.
Proof.
  intros Hm Hle. unfold binary_round_aux.
  destruct (shr_fexp_ge1 m e loc_Exact Hm Hle) as [He1 [Hm1 Hl1]].
  destruct (shr_fexp 53 1024 m e loc_Exact) as [mrs' e'] eqn:E1. cbn [fst snd] in *.
  set (m1 := round_nearest_even (shr_m mrs') (loc_of_shr_record mrs')).
  assert (Hge : shr_m mrs' <= m1).
  { unfold m1, round_nearest_even.
    destruct (loc_of_shr_record mrs') as [| []]; try lia.
    destruct (Z.even (shr_m mrs')); lia. }
  assert (Hlog : Z.log2 (shr_m mrs') <= Z.log2 m1) by (apply Z.log2_le_mono; exact Hge).
  destruct (shr_fexp_ge1 m1 e' loc_Exact ltac:(lia) ltac:(lia)) as [He2 [Hm2 Hl2]].
  destruct (shr_fexp 53 1024 m1 e' loc_Exact) as [mrs'' e''] eqn:E2. cbn [fst snd] in *.
  destruct (shr_m mrs'') as [| p | p] eqn:Ep; try lia.
  destruct (e'' <=? 1024 - 53); [| reflexivity].
  unfold SFleb, SFcompare, sf_one.
  destruct (Z.compare (-52) e'') eqn:Ec; try reflexivity.
  - apply Z.compare_eq in Ec. subst e''.
    assert (H52 : 2 ^ 52 <= Zpos p).
    { assert (52 <= Z.log2 (Zpos p)) by lia.
      destruct (Z.log2_spec (Zpos p) ltac:(lia)) as [Hs _].
      eapply Z.le_trans; [| exact Hs]. apply Z.pow_le_mono_r; lia. }
    change (Pos.compare_cont Eq 4503599627370496 p) with (Pos.compare 4503599627370496 p).
    destruct (Pos.compare 4503599627370496 p) eqn:Pc; try reflexivity.
    assert (Hc : 4503599627370496 > Zpos p) by exact Pc. clear - Hc H52. lia.
  - apply Z.compare_gt_iff in Ec. clear - Ec He2. lia.
Qed.

Lemma shl_align_log2 (m : positive) (e e' : Z) :
  e' <= e ->
  Z.log2 (Zpos (fst (shl_align m e e'))) + e' = Z.log2 (Zpos m) + e.
Proof.
  intros He. unfold shl_align.
  destruct (e' - e) as [| d | d] eqn:Hd; cbn [fst]; try lia.
  assert (Zpos (Pos.iter xO m d) = Z.shiftl (Zpos m) (Zpos d)) as ->.
  { cbn [Z.shiftl]. apply (Pos.iter_swap_gen _ _ Zpos xO (Z.mul 2)). reflexivity. }
  rewrite Z.log2_shiftl by lia. lia.
Qed.

Lemma binary_round_ge1 (m : positive) (e : Z) :
  0 <= Z.log2 (Zpos m) + e -> SFleb sf_one (binary_round 53 1024 false m e) = true.
Proof.
  intros Hle. unfold binary_round.
  assert (Hsh : forall e', Z.log2 (Zpos (fst (shl_align m e e'))) + snd (shl_align m e e')
                           = Z.log2 (Zpos m) + e).
  { intros e'. unfold shl_align. destruct (e' - e) as [| d | d] eqn:Hd; cbn [fst snd]; try lia.
    pose proof (shl_align_log2 m e e' ltac:(lia)) as H. unfold shl_align in H.
    rewrite Hd in H. exact H. }
  destruct (shl_align m e _) as [mz ez] eqn:E. specialize (Hsh (fexp 53 1024 (Zpos (digits2_pos m) + e))).
  rewrite E in Hsh. cbn [fst snd] in Hsh.
  apply round_aux_ge1; lia.
Qed.

(** the classes of binary64 values the lemmas below speak about *)
Definition sf_nonfinite (x : spec_float) : bool :=
  match x with S754_infinity _ | S754_nan => true | _ => false end.

Definition sf_nonneg (x : spec_float) : bool :=
  match x with
  | S754_nan | S754_zero _ => true
  | S754_infinity s | S754_finite s _ _ => negb s
  end.

Definition sf_ge1 (x : spec_float) : bool :=
  match x with S754_nan => true | _ => SFleb sf_one x end.

Ltac sf_cases x := destruct x as [[]|[]| |[] ? ?].

Lemma SFadd_nonfinite_l x y :
  sf_nonfinite x = true -> sf_nonfinite (SFadd 53 1024 x y) = true.
Proof. intros H. sf_cases x; try discriminate; sf_cases y; reflexivity. Qed.

Lemma SFadd_nonfinite_r x y :
  sf_nonfinite y = true -> sf_nonfinite (SFadd 53 1024 x y) = true.
Proof. intros H. sf_cases y; try discriminate; sf_cases x; reflexivity. Qed.

Lemma SFsub_nonfinite_l x y :
  sf_nonfinite x = true -> sf_nonfinite (SFsub 53 1024 x y) = true.
Proof. intros H. sf_cases x; try discriminate; sf_cases y; reflexivity. Qed.

Lemma SFmul_nonfinite_r x y :
  sf_nonfinite y = true -> sf_nonfinite (SFmul 53 1024 x y) = true.
Proof. intros H. sf_cases y; try discriminate; sf_cases x; reflexivity. Qed.

Lemma SFdiv_nonfinite x y :
  sf_nonfinite x = true -> sf_nonfinite y = true -> SFdiv 53 1024 x y = S754_nan.
Proof. intros Hx Hy. sf_cases x; try discriminate; sf_cases y; try discriminate; reflexivity. Qed.

Lemma round_aux_sign (s : bool) (m e : Z) (l : location) :
  sf_nonneg (binary_round_aux 53 1024 s m e l) = negb s
  \/ binary_round_aux 53 1024 s m e l = S754_nan
  \/ exists s', binary_round_aux 53 1024 s m e l = S754_zero s'.
Proof.
  unfold binary_round_aux.
  destruct (shr_fexp 53 1024 m e l) as [mrs' e'].
  destruct (shr_fexp 53 1024 _ e' loc_Exact) as [mrs'' e''].
  destruct (shr_m mrs''); [right; right; eexists; reflexivity | | right; left; reflexivity].
  destruct (e'' <=? 1024 - 53); left; reflexivity.
Qed.

Lemma round_aux_nonneg (m e : Z) (l : location) :
  sf_nonneg (binary_round_aux 53 1024 false m e l) = true.
Proof.
  destruct (round_aux_sign false m e l) as [H | [H | [s H]]]; rewrite H; reflexivity.
Qed.

Lemma SFmul_nonneg x y :
  sf_nonneg x = true -> sf_nonneg y = true -> sf_nonneg (SFmul 53 1024 x y) = true.
Proof.
  intros Hx Hy. sf_cases x; try discriminate; sf_cases y; try discriminate; try reflexivity.
  apply round_aux_nonneg.
Qed.

Lemma SFmul_square x : sf_nonneg (SFmul 53 1024 x x) = true.
Proof.
  sf_cases x; try reflexivity; cbn [SFmul xorb]; apply round_aux_nonneg.
Qed.

Lemma SFdiv_nonneg x y :
  sf_nonneg x = true -> sf_nonneg y = true -> (forall s, y <> S754_zero s) ->
  sf_nonneg (SFdiv 53 1024 x y) = true.
Proof.
  intros Hx Hy Hz. sf_cases x; try discriminate; sf_cases y; try discriminate;
    try reflexivity; try (exfalso; eapply Hz; reflexivity).
  cbn [SFdiv xorb]. destruct (SFdiv_core_binary _ _ _ _ _ _) as [[? ?] ?].
  apply round_aux_nonneg.
Qed.

Lemma sf_ge1_nonneg x : sf_ge1 x = true -> sf_nonneg x = true.
Proof. sf_cases x; try reflexivity; discriminate. Qed.

Lemma ge1_log2 (m : positive) (e : Z) :
  valid_binary (S754_finite false m e) = true ->
  SFleb sf_one (S754_finite false m e) = true -> 0 <= Z.log2 (Zpos m) + e.
Proof.
  intros Hv Hx. cbn [valid_binary bounded canonical_mantissa] in Hv.
  apply andb_prop in Hv. destruct Hv as [Hc _]. apply Z.eqb_eq in Hc.
  rewrite zdigits_log2 in Hc.
  assert (Hc' : Z.max (Z.log2 (Zpos m) + 1 + e - 53) (-1074) = e)
    by (etransitivity; [| exact Hc]; reflexivity).
  clear Hc.
  pose proof (Z.log2_nonneg (Zpos m)).
  unfold SFleb, SFcompare, sf_one in Hx.
  destruct (Z.compare (-52) e) eqn:Ec.
  - apply Z.compare_eq in Ec. subst e.
    change (Pos.compare_cont Eq 4503599627370496 m) with (Pos.compare 4503599627370496 m) in Hx.
    destruct (Pos.compare 4503599627370496 m) eqn:Pc; try discriminate.
    + apply Pos.compare_eq in Pc. subst m. cbn. lia.
    + assert (Hl : 4503599627370496 < Zpos m) by exact Pc.
      assert (52 <= Z.log2 (Zpos m)).
      { rewrite <- (Z.log2_pow2 52) by lia. apply Z.log2_le_mono. clear - Hl. lia. }
      lia.
  - rewrite Z.compare_lt_iff in Ec. lia.
  - discriminate.
Qed.

Lemma leb_one_ge1 z : SFleb sf_one z = true -> sf_ge1 z = true.
Proof. destruct z; cbn [sf_ge1]; auto. Qed.

Lemma SFadd_ge1 x y :
  valid_binary x = true -> sf_ge1 x = true -> sf_nonneg y = true ->
  sf_ge1 (SFadd 53 1024 x y) = true.
Proof.
  intros Hv Hx Hy. sf_cases x; try discriminate; sf_cases y; try discriminate;
    try reflexivity; try exact Hx.
  rename m into mx, e into ex, m0 into my, e0 into ey.
  pose proof (ge1_log2 mx ex Hv Hx) as Hl.
  cbn [SFadd cond_Zopp]. set (ez := Z.min ex ey).
  pose proof (shl_align_log2 mx ex ez ltac:(unfold ez; lia)) as Ha.
  set (a := fst (shl_align mx ex ez)) in *. set (b := fst (shl_align my ey ez)).
  cbn [Z.add binary_normalize]. apply leb_one_ge1, binary_round_ge1.
  assert (Z.log2 (Zpos a) <= Z.log2 (Zpos (a + b))) by (apply Z.log2_le_mono; lia).
  lia.
Qed.


Local Open Scope float_scope.

Lemma Prim2SF_zero : Prim2SF 0 = S754_zero false. Proof. reflexivity. Qed.
Lemma Prim2SF_one : Prim2SF 1 = sf_one. Proof. reflexivity. Qed.

Definition nonneg_or_nan (x : float) : bool := (0 <=? x) || PrimFloat.is_nan x.
Definition ge1_or_nan (x : float) : bool := (1 <=? x) || PrimFloat.is_nan x.

Lemma SFeqb_refl_nonnan (X : spec_float) : X <> S754_nan -> SFeqb X X = true.
Proof.
  intros H. sf_cases X; try reflexivity; try (exfalso; apply H; reflexivity);
    unfold SFeqb, SFcompare;
    match goal with |- context [IntDef.Z.compare ?e ?e] =>
      change (IntDef.Z.compare e e) with (Z.compare e e); rewrite Z.compare_refl end;
    match goal with |- context [Pos.compare_cont Eq ?m ?m] =>
      change (Pos.compare_cont Eq m m) with (Pos.compare m m); rewrite Pos.compare_refl end;
    reflexivity.
Qed.

Lemma is_nan_spec (x : float) : PrimFloat.is_nan x = match Prim2SF x with S754_nan => true | _ => false end.
Proof.
  unfold PrimFloat.is_nan. rewrite FloatAxioms.eqb_spec.
  destruct (Prim2SF x) eqn:E; try (rewrite SFeqb_refl_nonnan by discriminate; reflexivity).
  reflexivity.
Qed.

Lemma nonneg_spec (x : float) : nonneg_or_nan x = sf_nonneg (Prim2SF x).
Proof.
  unfold nonneg_or_nan. rewrite FloatAxioms.leb_spec, is_nan_spec, Prim2SF_zero.
  sf_cases (Prim2SF x); reflexivity.
Qed.

Lemma ge1_spec (x : float) : ge1_or_nan x = sf_ge1 (Prim2SF x).
Proof.
  unfold ge1_or_nan. rewrite FloatAxioms.leb_spec, is_nan_spec, Prim2SF_one.
  destruct (Prim2SF x); cbn [sf_ge1]; try apply orb_false_r; reflexivity.
Qed.

Lemma pos_nonneg (x : float) : (0 <? x) = true -> sf_nonneg (Prim2SF x) = true.
Proof. rewrite FloatAxioms.ltb_spec, Prim2SF_zero. sf_cases (Prim2SF x); try reflexivity; discriminate. Qed.

Lemma pos_nonzero (x : float) : (0 <? x) = true -> forall s, Prim2SF x <> S754_zero s.
Proof. rewrite FloatAxioms.ltb_spec, Prim2SF_zero. intros H s E. rewrite E in H. discriminate. Qed.

Lemma leb_nonneg (x : float) : (0 <=? x) = true -> sf_nonneg (Prim2SF x) = true.
Proof. rewrite FloatAxioms.leb_spec, Prim2SF_zero. sf_cases (Prim2SF x); try reflexivity; discriminate. Qed.

Lemma neq0_nonzero (x : float) : (x =? 0) = false -> forall s, Prim2SF x <> S754_zero s.
Proof. rewrite FloatAxioms.eqb_spec, Prim2SF_zero. intros H s E. rewrite E in H. destruct s; discriminate. Qed.

Lemma df_ge1_float (J0 Rs Rsh n Vt e : float) :
  (0 <=? J0) = true -> (0 <=? Rs) = true -> (0 <? Rsh) = true ->
  (0 <? n) = true -> (0 <? Vt) = true -> (n * Vt =? 0) = false ->
  nonneg_or_nan e = true ->
  ge1_or_nan (1 + J0 * Rs / (n * Vt) * e + Rs / Rsh) = true.
Proof.
  intros HJ0 HRs HRsh Hn HVt HnVt He.
  rewrite ge1_spec, add_spec. apply SFadd_ge1; [apply Prim2SF_valid | |].
  - rewrite add_spec. apply SFadd_ge1; [apply Prim2SF_valid | rewrite Prim2SF_one; reflexivity |].
    rewrite mul_spec. apply SFmul_nonneg; [| rewrite <- nonneg_spec; exact He].
    rewrite div_spec. apply SFdiv_nonneg; [| | apply neq0_nonzero; exact HnVt].
    + rewrite mul_spec. apply SFmul_nonneg; apply leb_nonneg; assumption.
    + rewrite mul_spec. apply SFmul_nonneg; apply pos_nonneg; assumption.
  - rewrite div_spec. apply SFdiv_nonneg;
      [apply leb_nonneg; exact HRs | apply pos_nonneg; exact HRsh | apply pos_nonzero; exact HRsh].
Qed.

End Binary64Order.

(** *** Runs in which [np.exp] overflows *)

Section OverflowRuns.
Local Open Scope float_scope.
Variables (exp : float -> float) (Vt V Jsc J0 n Rs Rsh : float).

Lemma infinity_nonfinite : sf_nonfinite (Prim2SF infinity) = true.
Proof. reflexivity. Qed.

(** An infinite [np.exp] in [f] and [df]: [f/df] is [nan], and so is the
    update, whatever the parameters. *)
Lemma update_overflow (J : float) :
  exp ((V + J * Rs) / (n * Vt)) = infinity ->
  newton_update exp Vt V Jsc J0 n Rs Rsh J = nan.
Proof.
  intros Hover. unfold newton_update, f_of, df_pure.
  cbn [n_add n_sub n_mul n_div n_one float64_num]. rewrite Hover.
  apply Prim2SF_inj. rewrite sub_spec, div_spec, SFdiv_nonfinite.
  - rewrite Prim2SF_nan. destruct (Prim2SF J) as [[]|[]| |[] ? ?]; reflexivity.
  - rewrite add_spec. apply SFadd_nonfinite_l. rewrite add_spec. apply SFadd_nonfinite_r.
    rewrite mul_spec. apply SFmul_nonfinite_r. rewrite sub_spec. apply SFsub_nonfinite_l.
    apply infinity_nonfinite.
  - rewrite add_spec. apply SFadd_nonfinite_l. rewrite add_spec. apply SFadd_nonfinite_r.
    rewrite mul_spec. apply SFmul_nonfinite_r. apply infinity_nonfinite.
Qed.

(** [df] at a [nan] iterate, for an [exp] that maps [nan] to [nan]. *)
Lemma df_pure_nan :
  (forall x, PrimFloat.is_nan x = true -> exp x = nan) ->
  df_pure exp Vt V J0 n Rs Rsh nan = nan.
Proof.
  intros Hnan. unfold df_pure. cbn [n_add n_mul n_div n_one float64_num].
  rewrite mul_nan_l, add_nan_r, div_nan_l, Hnan by reflexivity.
  autorewrite with nan_db. reflexivity.
Qed.

End OverflowRuns.

Section ExpModelSign.
Local Open Scope float_scope.

Lemma square_n_nonneg (m : nat) (z : float) :
  nonneg_or_nan z = true -> nonneg_or_nan (square_n m z) = true.
Proof.
  revert z. induction m as [| m IH]; intros z Hz; cbn [square_n]; [exact Hz |].
  apply IH. rewrite nonneg_spec, mul_spec. rewrite nonneg_spec in Hz.
  apply SFmul_nonneg; exact Hz.
Qed.

(** [np_exp_model] is never negative. *)
Lemma np_exp_model_nonneg (x : float) : nonneg_or_nan (np_exp_model x) = true.
Proof.
  unfold np_exp_model.
  destruct (PrimFloat.is_nan x); [reflexivity |].
  destruct (709.782712893384 <? x); [reflexivity |].
  destruct (x <? -745.2); [reflexivity |].
  change (square_n 10 ?y) with (square_n 9 (y * y)). apply square_n_nonneg.
  rewrite nonneg_spec, mul_spec. apply SFmul_square.
Qed.

(** A [df] that is at least 1 or [nan] is not 0. *)
Lemma ge1_nonzero (d : float) : ge1_or_nan d = true -> (d =? 0) = false.
Proof.
  rewrite ge1_spec, FloatAxioms.eqb_spec, Prim2SF_zero.
  destruct (Prim2SF d) as [[]|[]| |[] ? ?]; cbn [sf_ge1]; try reflexivity; discriminate.
Qed.

End ExpModelSign.

(** C4 (amended).  The solver neither clamps nor detects an overflowing
    exponential and has no overflow error.  For any [exp], any [V] and any
    parameters with [n*Vt] and [Rsh] non-zero: if [np.exp] returns [+inf]
    in a pass [k] the loop reaches, then [f] and [df] are infinite or
    [nan], [f/df] is [nan], every iterate after [J_k] is [nan], the step
    test never passes, all 100 passes run, and the call returns [nan] as
    an ordinary result. *)
Theorem C4_overflow_unguarded (exp : float -> float) (Vt V Jsc J0 n Rs Rsh : float)
    (k : nat) (Hd : divisors_ok Vt n Rsh = true)
    (Hk : (k <= stop_at exp Vt V Jsc J0 n Rs Rsh 99 0)%nat)
    (Hover : exp ((V + code_iter exp Vt V Jsc J0 n Rs Rsh k * Rs) / (n * Vt))%float
             = infinity) :
  (forall j, (k < j)%nat -> code_iter exp Vt V Jsc J0 n Rs Rsh j = nan) /\
  stop_at exp Vt V Jsc J0 n Rs Rsh 99 0 = 99%nat /\
  solar_cell_current exp Vt V Jsc J0 n Rs Rsh = Ok nan.
Proof.
  assert (Hafter : forall j, (k < j)%nat -> code_iter exp Vt V Jsc J0 n Rs Rsh j = nan).
  { intros j Hj. replace j with ((j - S k) + S k)%nat by lia.
    apply iter_nan_from. cbn [code_iter]. apply update_overflow. exact Hover. }
  assert (Hstop : stop_at exp Vt V Jsc J0 n Rs Rsh 99 0 = 99%nat).
  { destruct (stop_at_last exp Vt V Jsc J0 n Rs Rsh 99 0) as [Hs | Hs]; [| exact Hs].
    rewrite small_nan in Hs; [discriminate |]. apply Hafter. lia. }
  split; [exact Hafter |]. split; [exact Hstop |].
  rewrite solar_cell_current_eq, Hd, Hstop, Hafter by lia. reflexivity.
Qed.

Lemma C4_overflow_unguarded_witness :
  (forall j, (0 < j)%nat ->
     code_iter np_exp_model 0.02585 1000 30.52638788 1e-12 1.2 0.001 10000 j = nan) /\
  stop_at np_exp_model 0.02585 1000 30.52638788 1e-12 1.2 0.001 10000 99 0 = 99%nat /\
  solar_cell_current np_exp_model 0.02585 1000 30.52638788 1e-12 1.2 0.001 10000 = Ok nan.
Proof.
  apply (C4_overflow_unguarded np_exp_model 0.02585 1000 30.52638788 1e-12 1.2 0.001 10000 0).
  - vm_compute. reflexivity.
  - lia.
  - vm_compute. reflexivity.
Defined.

(** C9 (amended).  Let [exp] be any exponential whose values are
    non-negative or [nan], and let [J0 >= 0], [Rs >= 0], [Rsh > 0], [n > 0]
    and [Vt > 0] as binary64 numbers.  At any [J] the derivative of line 32
    either raises [ZeroDivisionError] because [n*Vt] underflows to 0, or is
    at least 1 or [nan], and so is never 0: [f/df] never divides by zero.
    It is not always at least 1: once [exp] has overflowed at an iterate
    [J_k], the derivative at [J_(k+1)] is [nan]. *)
Theorem C9_df_at_least_one_or_nan (exp : float -> float) (Vt V Jsc J0 n Rs Rsh : float)
    (Hexp : forall x, nonneg_or_nan (exp x) = true)
    (HJ0 : (0 <=? J0)%float = true) (HRs : (0 <=? Rs)%float = true)
    (HRsh : (0 <? Rsh)%float = true) (Hn : (0 <? n)%float = true)
    (HVt : (0 <? Vt)%float = true) :
  (forall J,
     ((n * Vt =? 0)%float = true /\
      df_of exp Vt V J0 n Rs Rsh J = Raise ZeroDivisionError) \/
     (exists d, df_of exp Vt V J0 n Rs Rsh J = Ok d /\ (d =? 0)%float = false /\
                ((1 <=? d)%float = true \/ PrimFloat.is_nan d = true))) /\
  (forall k, (n * Vt =? 0)%float = false ->
     (forall x, PrimFloat.is_nan x = true -> exp x = nan) ->
     exp ((V + code_iter exp Vt V Jsc J0 n Rs Rsh k * Rs) / (n * Vt))%float = infinity ->
     df_of exp Vt V J0 n Rs Rsh (code_iter exp Vt V Jsc J0 n Rs Rsh (S k)) = Ok nan).
Proof.
  assert (HRsh0 : (Rsh =? 0)%float = false).
  { rewrite FloatAxioms.eqb_spec, Prim2SF_zero.
    destruct (Prim2SF Rsh) as [[]|[]| |[] ? ?] eqn:E; try reflexivity;
      exfalso; apply (pos_nonzero Rsh HRsh _ E). }
  assert (Hok : forall J, (n * Vt =? 0)%float = false ->
            df_of exp Vt V J0 n Rs Rsh J = Ok (df_pure exp Vt V J0 n Rs Rsh J)).
  { intros J HnVt. apply df_of_ok. unfold divisors_ok.
    cbn [n_eqb n_mul n_zero float64_num]. rewrite HnVt, HRsh0. reflexivity. }
  split.
  - intros J. destruct (n * Vt =? 0)%float eqn:HnVt.
    + left. split; [reflexivity |]. apply df_of_raise. unfold divisors_ok.
      cbn [n_eqb n_mul n_zero float64_num]. rewrite HnVt. reflexivity.
    + right. exists (df_pure exp Vt V J0 n Rs Rsh J). split; [apply Hok; reflexivity |].
      assert (Hge : ge1_or_nan (df_pure exp Vt V J0 n Rs Rsh J) = true).
      { unfold df_pure. cbn [n_add n_mul n_div n_one float64_num].
        apply df_ge1_float; auto. }
      split; [apply ge1_nonzero; exact Hge |].
      apply orb_true_iff. exact Hge.
  - intros k HnVt Hnan Hover. rewrite Hok by exact HnVt.
    cbn [code_iter]. rewrite update_overflow by exact Hover.
    rewrite df_pure_nan by exact Hnan. reflexivity.
Qed.

Lemma C9_df_at_least_one_or_nan_witness :
  (forall J,
     ((1.2 * 0.02585 =? 0)%float = true /\
      df_of np_exp_model 0.02585 1000 1e-12 1.2 0.001 10000 J = Raise ZeroDivisionError) \/
     (exists d, df_of np_exp_model 0.02585 1000 1e-12 1.2 0.001 10000 J = Ok d /\
                (d =? 0)%float = false /\
                ((1 <=? d)%float = true \/ PrimFloat.is_nan d = true))) /\
  (forall k, (1.2 * 0.02585 =? 0)%float = false ->
     (forall x, PrimFloat.is_nan x = true -> np_exp_model x = nan) ->
     np_exp_model ((1000 + code_iter np_exp_model 0.02585 1000 30.52638788 1e-12 1.2 0.001
                            10000 k * 0.001) / (1.2 * 0.02585))%float = infinity ->
     df_of np_exp_model 0.02585 1000 1e-12 1.2 0.001 10000
       (code_iter np_exp_model 0.02585 1000 30.52638788 1e-12 1.2 0.001 10000 (S k))
     = Ok nan).
Proof.
  apply (C9_df_at_least_one_or_nan np_exp_model 0.02585 1000 30.52638788 1e-12 1.2 0.001 10000).
  - exact np_exp_model_nonneg.
  - vm_compute. reflexivity.
  - vm_compute. reflexivity.
  - vm_compute. reflexivity.
  - vm_compute. reflexivity.
  - vm_compute. reflexivity.
Defined.

(** ** numpy's overflow warnings and the [warnings] registry

    [np.exp] of a finite argument that overflows sets the IEEE overflow
    flag, and numpy (default [errstate]) reports it with
    [warnings.warn("overflow encountered in exp", RuntimeWarning)] from the
    line that called it.  [warn_explicit] runs with the module's globals:
    the first warning creates [__warningregistry__] there
    ([globals.setdefault]); under the default filter for [RuntimeWarning] a
    key (message, category, line) already in the registry is skipped, and a
    new one is recorded and printed to stderr.  Left out: the registry's
    [version] entry and the warnings of numpy's scalar operations ([inf/inf]
    and the like on line 34), which only add keys and printed lines of the
    same kind. *)

Section Warnings.
Local Open Scope float_scope.

(** a registry key: the message and the line (the category is always
    [RuntimeWarning]) *)
Definition warning : Type := (string * nat)%type.

Definition overflow_msg : string := "overflow encountered in exp"%string.

Definition warning_eqb (a b : warning) : bool :=
  String.eqb (fst a) (fst b) && Nat.eqb (snd a) (snd b).

(** The state a call can touch: the script's variables, the module's
    [__warningregistry__] ([None] before the first warning) and what was
    printed to stderr. *)
Record wstate := mk_wstate {
  w_globals : globals;
  w_registry : option (list warning);
  w_stderr : list warning
}.

Definition registry_keys (s : wstate) : list warning :=
  match w_registry s with Some r => r | None => [] end.

Definition warn (s : wstate) (w : warning) : wstate :=
  let reg := registry_keys s in
  if existsb (warning_eqb w) reg
  then mk_wstate (w_globals s) (Some reg) (w_stderr s)
  else mk_wstate (w_globals s) (Some (w :: reg)) (app (w_stderr s) [w]).

(** the warning of an [np.exp(x)] evaluated at [line] *)
Definition exp_warnings (np_exp : float -> float) (x : float) (line : nat)
    : list warning :=
  if PrimFloat.is_finite x && PrimFloat.is_infinity (np_exp x)
  then [(overflow_msg, line)] else [].

Local Open Scope py_scope.

(** [for_range] with the warnings its [np.exp] calls issue, in order: line
    30, then line 32, whose [np.exp] runs after [J0*Rs/(n*Vt)] went through
    and before [Rs/Rsh]. *)
Fixpoint for_range_w (np_exp : float -> float) (Vt V Jsc J0 n Rs Rsh : float)
    (fuel i : nat) (s : loop_state) : result loop_state * list warning :=
  match fuel with
  | O => (Ok s, [])
  | S fuel' =>
      let Jg := J_guess s in
      let x := (V + Jg * Rs) / (n * Vt) in
      let f := f_of np_exp Vt V Jsc J0 n Rs Rsh Jg in
      let w30 := exp_warnings np_exp x 30 in
      let w32 := if n * Vt =? n_zero then [] else exp_warnings np_exp x 32 in
      match df_of np_exp Vt V J0 n Rs Rsh Jg with
      | Raise e => (Raise e, app w30 w32)
      | Ok df =>
          let Jn := Jg - f / df in
          if n_abs (Jn - Jg) <? n_tol
          then (Ok (mk_state (Some i) Jg (Some Jn)), app w30 w32)
          else
            let (r, ws) := for_range_w np_exp Vt V Jsc J0 n Rs Rsh fuel' (S i)
                             (mk_state (Some i) Jn (Some Jn)) in
            (r, app (app w30 w32) ws)
      end
  end.

Definition solar_cell_current_w (np_exp : float -> float)
    (Vt V Jsc J0 n Rs Rsh : float) : result float * list warning :=
  let (r, ws) := for_range_w np_exp Vt V Jsc J0 n Rs Rsh 100 0 (mk_state None Jsc None) in
  (let! s := r in
   match J_new s with
   | Some j => Ok j
   | None => Raise UnboundLocalError
   end, ws).

Local Close Scope py_scope.

(** [call] with its warnings: the result, and the state after the warnings
    went through [warn]. *)
Definition call_w (np_exp : float -> float) (s : wstate) (kw : kwargs) (V : float)
    : result float * wstate :=
  let (r, ws) :=
    solar_cell_current_w np_exp (g_Vt (w_globals s)) V
      (arg (kw_Jsc kw) (d_Jsc defaults_at_def))
      (arg (kw_J0 kw) (d_J0 defaults_at_def))
      (arg (kw_n kw) (d_n defaults_at_def))
      (arg (kw_Rs kw) (d_Rs defaults_at_def))
      (arg (kw_Rsh kw) (d_Rsh defaults_at_def)) in
  (r, fold_left warn ws s).

(** The warnings do not change the values. *)
Lemma for_range_w_value (np_exp : float -> float) (Vt V Jsc J0 n Rs Rsh : float)
    (fuel i : nat) (s : loop_state) :
  fst (for_range_w np_exp Vt V Jsc J0 n Rs Rsh fuel i s) =
  for_range np_exp Vt V Jsc J0 n Rs Rsh fuel i s.
Proof.
  revert i s. induction fuel as [| fuel IH]; intros i s; [reflexivity |].
  cbn [for_range_w for_range].
  destruct (df_of np_exp Vt V J0 n Rs Rsh (J_guess s)) as [df | e]; [| reflexivity].
  cbn [bind]. destruct (n_ltb _ _); [reflexivity |].
  rewrite <- IH. destruct (for_range_w _ _ _ _ _ _ _ _ fuel _ _). reflexivity.
Qed.

Lemma solar_cell_current_w_value (np_exp : float -> float)
    (Vt V Jsc J0 n Rs Rsh : float) :
  fst (solar_cell_current_w np_exp Vt V Jsc J0 n Rs Rsh) =
  solar_cell_current np_exp Vt V Jsc J0 n Rs Rsh.
Proof.
  unfold solar_cell_current_w, solar_cell_current.
  rewrite <- for_range_w_value.
  destruct (for_range_w _ _ _ _ _ _ _ _ _ _ _). reflexivity.
Qed.

(** the warnings a call issues *)
Definition call_warnings (np_exp : float -> float) (g : globals) (kw : kwargs)
    (V : float) : list warning :=
  snd (solar_cell_current_w np_exp (g_Vt g) V
         (arg (kw_Jsc kw) (d_Jsc defaults_at_def))
         (arg (kw_J0 kw) (d_J0 defaults_at_def))
         (arg (kw_n kw) (d_n defaults_at_def))
         (arg (kw_Rs kw) (d_Rs defaults_at_def))
         (arg (kw_Rsh kw) (d_Rsh defaults_at_def))).

Lemma call_w_eq (np_exp : float -> float) (s : wstate) (kw : kwargs) (V : float) :
  call_w np_exp s kw V =
  (fst (call np_exp (w_globals s) kw V),
   fold_left warn (call_warnings np_exp (w_globals s) kw V) s).
Proof.
  unfold call_w, call_warnings, call. cbn [fst].
  rewrite <- solar_cell_current_w_value.
  destruct (solar_cell_current_w _ _ _ _ _ _ _ _). reflexivity.
Qed.

Lemma warning_eqb_refl (w : warning) : warning_eqb w w = true.
Proof. destruct w as [m l]. unfold warning_eqb. cbn. rewrite String.eqb_refl, Nat.eqb_refl. reflexivity. Qed.

Lemma warn_globals (s : wstate) (w : warning) : w_globals (warn s w) = w_globals s.
Proof. unfold warn. destruct (existsb _ _); reflexivity. Qed.

Lemma warn_keys (s : wstate) (w : warning) :
  w_registry (warn s w) <> None /\ In w (registry_keys (warn s w)) /\
  (forall u, In u (registry_keys s) -> In u (registry_keys (warn s w))).
Proof.
  unfold warn. destruct (existsb (warning_eqb w) (registry_keys s)) eqn:E;
    unfold registry_keys at 2 3 4; cbn [w_registry];
    (split; [discriminate | split]); auto.
  - apply existsb_exists in E. destruct E as [u [Hu Hw]].
    destruct w as [m l], u as [m' l']. unfold warning_eqb in Hw. cbn in Hw.
    apply andb_prop in Hw. destruct Hw as [Hm Hl].
    apply String.eqb_eq in Hm. apply Nat.eqb_eq in Hl. subst. exact Hu.
  - left. reflexivity.
  - intros u Hu. right. exact Hu.
Qed.

Lemma warn_noop (s : wstate) (w : warning) (reg : list warning) :
  w_registry s = Some reg -> In w reg -> warn s w = s.
Proof.
  intros Hr Hw. unfold warn, registry_keys. rewrite Hr.
  assert (E : existsb (warning_eqb w) reg = true).
  { apply existsb_exists. exists w. split; [exact Hw | apply warning_eqb_refl]. }
  rewrite E. destruct s. cbn in *. subst. reflexivity.
Qed.

Lemma fold_warn_globals (ws : list warning) (s : wstate) :
  w_globals (fold_left warn ws s) = w_globals s.
Proof.
  revert s. induction ws as [| w ws IH]; intros s; [reflexivity |].
  cbn [fold_left]. rewrite IH. apply warn_globals.
Qed.

Lemma fold_warn_stderr (ws : list warning) (s : wstate) :
  exists out, w_stderr (fold_left warn ws s) = app (w_stderr s) out.
Proof.
  revert s. induction ws as [| w ws IH]; intros s.
  - exists []. rewrite app_nil_r. reflexivity.
  - cbn [fold_left]. destruct (IH (warn s w)) as [out Hout]. rewrite Hout.
    unfold warn. destruct (existsb _ _); cbn [w_stderr].
    + exists out. reflexivity.
    + exists (w :: out). rewrite <- app_assoc. reflexivity.
Qed.

Lemma fold_warn_keys (ws : list warning) (s : wstate) :
  (forall u, In u (registry_keys s) -> In u (registry_keys (fold_left warn ws s))) /\
  (forall w, In w ws -> In w (registry_keys (fold_left warn ws s))) /\
  (ws <> [] -> w_registry (fold_left warn ws s) <> None).
Proof.
  revert s. induction ws as [| w ws IH]; intros s.
  - split; [auto | split; [intros w [] | intros H; exfalso; apply H; reflexivity]].
  - cbn [fold_left]. destruct (warn_keys s w) as [Hn [Hw Hk]].
    destruct (IH (warn s w)) as [IH1 [IH2 IH3]].
    split; [intros u Hu; apply IH1, Hk, Hu |]. split.
    + intros u [<- | Hu]; [apply IH1, Hw | apply IH2, Hu].
    + intros _. destruct ws as [| w' ws'].
      * exact Hn.
      * apply IH3. discriminate.
Qed.

Lemma fold_warn_noop (ws : list warning) (s : wstate) (reg : list warning) :
  w_registry s = Some reg -> (forall w, In w ws -> In w reg) ->
  fold_left warn ws s = s.
Proof.
  revert s. induction ws as [| w ws IH]; intros s Hr Hws; [reflexivity |].
  cbn [fold_left]. rewrite (warn_noop s w reg Hr) by (apply Hws; left; reflexivity).
  apply IH; [exact Hr | intros u Hu; apply Hws; right; exact Hu].
Qed.

(** Issuing the same warnings again changes nothing. *)
Lemma fold_warn_idem (ws : list warning) (s : wstate) :
  fold_left warn ws (fold_left warn ws s) = fold_left warn ws s.
Proof.
  destruct ws as [| w ws]; [reflexivity |].
  destruct (fold_warn_keys (w :: ws) s) as [_ [Hin Hsome]].
  destruct (w_registry (fold_left warn (w :: ws) s)) as [reg |] eqn:Hr.
  - apply (fold_warn_noop _ _ reg Hr). intros u Hu.
    specialize (Hin u Hu). unfold registry_keys in Hin. rewrite Hr in Hin. exact Hin.
  - exfalso. apply Hsome; [discriminate | reflexivity].
Qed.

End Warnings.



